(** * RGB2GIF2VOXEL: frame store, quantizer and GIF encoder entry points

    The repository ships C headers for its Zig frame store and its Rust
    image core, C stubs that stand in for part of those libraries, and a
    pipeline test.  This development embeds the C stubs as they are
    written and, for the entry points that the repository only declares,
    a model that follows the design document. *)

From Stdlib Require Import ZArith Lia.
From stdpp Require Import gmap strings list.

Open Scope Z_scope.

(** ** C integer types *)

(** [int] is 32 bits wide and [size_t] 64 bits wide on the arm64 targets
    the stubs are built for.  Signed overflow is undefined in C; the
    model takes the two's complement result the compiled code yields. *)
Definition wrap_int32 (z : Z) : Z := (z + 2 ^ 31) mod 2 ^ 32 - 2 ^ 31.

Definition to_size_t (z : Z) : Z := z mod 2 ^ 64.

(** Arithmetic on [int]: every result is reduced to 32 bits; [/] and
    [%] truncate toward zero. *)
Definition int_add (a b : Z) : Z := wrap_int32 (a + b).
Definition int_mul (a b : Z) : Z := wrap_int32 (a * b).
Definition int_div (a b : Z) : Z := wrap_int32 (Z.quot a b).
Definition int_rem (a b : Z) : Z := Z.rem a b.

(** Conversion of an [int] to [uint8_t] on a store. *)
Definition to_uint8 (z : Z) : Z := z mod 256.

(** Contents of a storage destination: path to file bytes.  None of the
    stubs below reads or writes it; the frame store model does. *)
Abbreviation storage := (gmap string (list Z)).

(** ** zig-core/yxcbor_stub.c *)

(** The stub file defines the streaming entry points with its own
    parameter lists and its own manifest struct.  ThirdParty/Headers/yxcbor.h
    declares the same symbols with a directory path, a frame index and the
    struct fields in another order (width, height, channels, frame_count);
    the embedding follows the definitions of the stub file. *)
Module YxcborStub.

(** The manifest struct as the stub file declares it. *)
Record yx_frame_manifest := Manifest {
  frame_count : Z;
  width : Z;
  height : Z;
  format : Z
}.

Definition set_frame_count (v : Z) (m : yx_frame_manifest) :=
  Manifest v (width m) (height m) (format m).
Definition set_width (v : Z) (m : yx_frame_manifest) :=
  Manifest (frame_count m) v (height m) (format m).
Definition set_height (v : Z) (m : yx_frame_manifest) :=
  Manifest (frame_count m) (width m) v (format m).
Definition set_format (v : Z) (m : yx_frame_manifest) :=
  Manifest (frame_count m) (width m) (height m) v.

(** A stub call is a computation over the storage it could touch. *)
Definition stub (A : Type) : Type := storage -> A * storage.

Definition ret {A} (a : A) : stub A := fun s => (a, s).

Definition bind {A B} (c : stub A) (k : A -> stub B) : stub B :=
  fun s => let '(a, s') := c s in k a s'.

Notation "'call!' x ':=' c 'in' k" := (bind c (fun x => k))
  (at level 10, x pattern, c at level 100, k at level 200).

(** A pointer argument is [None] when null, otherwise the value it
    points at.  A function that writes through a pointer returns the
    pointed-at value after the call next to its status. *)

Definition yxcbor_open_writer (manifest : option yx_frame_manifest) : stub Z :=
  ret 0.

Definition yxcbor_write_frame (data : list Z) (size : Z) : stub Z :=
  ret 0.

Definition yxcbor_close_writer : stub unit :=
  ret tt.

Definition yxcbor_open_reader (manifest : option yx_frame_manifest)
  : stub (Z * option yx_frame_manifest) :=
  let manifest' :=
    match manifest with
    | Some m =>
        Some (set_format 0 (set_height 64 (set_width 64 (set_frame_count 32 m))))
    | None => None
    end in
  ret (0, manifest').

Definition yxcbor_read_frame (buffer : list Z) (size : Z) : stub (Z * list Z) :=
  ret (0, buffer).

Definition yxcbor_close_reader : stub unit :=
  ret tt.

(** *** Sessions: sequences of calls against one storage *)

Inductive call :=
| open_writer (manifest : option yx_frame_manifest)
| write_frame (data : list Z) (size : Z)
| close_writer
| open_reader (manifest : option yx_frame_manifest)
| read_frame (buffer : list Z) (size : Z)
| close_reader.

(** What the caller observes of one call: the status, if the function
    returns one, and the memory behind the out-pointer afterwards. *)
Inductive outcome :=
| returned (status : Z)
| returned_manifest (status : Z) (manifest : option yx_frame_manifest)
| returned_buffer (status : Z) (buffer : list Z)
| returned_void.

Definition status_of (o : outcome) : option Z :=
  match o with
  | returned st | returned_manifest st _ | returned_buffer st _ => Some st
  | returned_void => None
  end.

Definition step (c : call) : stub outcome :=
  match c with
  | open_writer m =>
      call! st := yxcbor_open_writer m in ret (returned st)
  | write_frame d n =>
      call! st := yxcbor_write_frame d n in ret (returned st)
  | close_writer =>
      call! _ := yxcbor_close_writer in ret returned_void
  | open_reader m =>
      call! (st, m') := yxcbor_open_reader m in ret (returned_manifest st m')
  | read_frame b n =>
      call! (st, b') := yxcbor_read_frame b n in ret (returned_buffer st b')
  | close_reader =>
      call! _ := yxcbor_close_reader in ret returned_void
  end.

Fixpoint run (cs : list call) : stub (list outcome) :=
  match cs with
  | [] => ret []
  | c :: cs' =>
      call! o := step c in
      call! os := run cs' in
      ret (o :: os)
  end.

(** The outcome of call [c] made after the calls [pre], starting from
    storage [dest]. *)
Definition call_after (pre : list call) (dest : storage) (c : call) : outcome :=
  fst (step c (snd (run pre dest))).

(** The manifest every reader session reports. *)
Definition stub_manifest : yx_frame_manifest := Manifest 32 64 64 0.

(** A complete writer session: open, one write per frame, close. *)
Definition writer_session (m : yx_frame_manifest) (frames : list (list Z))
  : list call :=
  open_writer (Some m)
  :: map (fun f => write_frame f (Z.of_nat (length f))) frames
  ++ [close_writer].

(** A reader session up to its reads: open, then one sequential read
    per caller buffer. *)
Definition reader_session (slot : yx_frame_manifest) (bufs : list (list Z))
  : list call :=
  open_reader (Some slot)
  :: map (fun b => read_frame b (Z.of_nat (length b))) bufs.

(** The round trip a streaming store owes its caller, stated on the
    observable outcomes: the reader's manifest is the writer's, and the
    i-th read fills the caller's buffer with the i-th written frame. *)
Definition streaming_round_trip (dest : storage) (m : yx_frame_manifest)
    (frames : list (list Z)) : Prop :=
  Z.of_nat (length frames) = frame_count m ->
  forall slot,
    call_after (writer_session m frames) dest (open_reader (Some slot))
      = returned_manifest 0 (Some m)
    /\ forall (i : nat) (f : list Z), frames !! i = Some f ->
       forall bufs : list (list Z), length bufs = i ->
       forall buf : list Z, length buf = length f ->
         call_after (writer_session m frames ++ reader_session slot bufs) dest
                    (read_frame buf (Z.of_nat (length buf)))
           = returned_buffer 0 f.

(** A call reports a state error when it returns a negative status. *)
Definition reports_error (o : outcome) : Prop :=
  match status_of o with
  | Some st => st < 0
  | None => False
  end.

End YxcborStub.

(** ** CStubs/stub_all_symbols.c *)

Module RustStubs.

(** [yingif_processor_new] returns the address 1 as its handle;
    [yingif_processor_free] does nothing. *)
Definition yingif_processor_new : Z := 1.

Definition yingif_processor_free (p : Z) : unit := tt.

(** The body reads none of its parameters and writes nothing: the
    status is 0 and the memory behind [out] is what the caller left
    there. *)
Definition yingif_process_frame (data : list Z) (len : Z)
    (out : list Z) (out_len : Z) : Z * list Z :=
  (0, out).

(** [w * h * frames] is computed in [int] and converted to [size_t] on
    return. *)
Definition yingif_estimate_gif_size (w h frames : Z) : Z :=
  to_size_t (wrap_int32 (wrap_int32 (w * h) * frames)).

Definition yingif_create_gif89a (data : list Z) (len : Z)
    (out : list Z) (out_len : Z) : Z * list Z :=
  (0, out).

Definition ffi_rgb2gif_processor_uniffi_contract_version : Z := 0x25.

(** The quantizer entry point is called through the prototype of
    yingif_processor.h: a frame, its dimensions, the target side, the
    palette size and the two output buffers.  The arguments of one such
    call, with the contents the output buffers hold when it is made
    (the pipeline test takes them from [malloc], so they are arbitrary). *)
Record process_frame_call := ProcessFrame {
  processor : Z;
  bgra_data : list Z;
  pf_width : Z;
  pf_height : Z;
  target_size : Z;
  palette_size : Z;
  out_indices : list Z;
  out_palette : list Z
}.

(** The stub linked behind that prototype: status, then the index and
    palette buffers after the call.  The stub body touches no memory, so
    the palette buffer is as it was, like the buffer bound to [out]. *)
Definition process_frame (c : process_frame_call) : Z * (list Z * list Z) :=
  let '(status, indices) :=
    yingif_process_frame (bgra_data c) (Z.of_nat (length (bgra_data c)))
                         (out_indices c) (Z.of_nat (length (out_indices c))) in
  (status, (indices, out_palette c)).

(** The argument check the design document asks of the quantizer. *)
Definition invalid_arguments (c : process_frame_call) : Prop :=
  pf_width c <= 0 \/ pf_height c <= 0 \/ target_size c <= 0
  \/ palette_size c < 1 \/ 256 < palette_size c.

(** A call with a palette of 2 whose index buffer holds 255 on entry. *)
Definition stale_call : process_frame_call :=
  ProcessFrame yingif_processor_new [0; 0; 0; 255] 1 1 1 2 [255] [0; 0].

(** A call with zero width, height, target side and palette size. *)
Definition zero_call : process_frame_call :=
  ProcessFrame yingif_processor_new [] 0 0 0 0 [] [].

(** Every index is a palette position below [P]. *)
Definition indices_below (P : Z) (indices : list Z) : Prop :=
  Forall (fun i => 0 <= i < P) indices.

End RustStubs.

(** ** Status codes *)

(** Modelled from the spec: the numeric values of the status codes, which
    no file of the repository defines.  The design document fixes the
    taxonomy, that success is 0 and that every failure is negative; the
    particular negative numbers are this model's. *)
Inductive status :=
| Success
| InvalidArgument
| BufferTooSmall
| IOError
| EncodeError
| OutOfMemory
| StateError.

Definition status_code (st : status) : Z :=
  match st with
  | Success => 0
  | InvalidArgument => -1
  | BufferTooSmall => -2
  | IOError => -3
  | EncodeError => -4
  | OutOfMemory => -5
  | StateError => -6
  end.

(** ** Single-frame store (yxcbor_simple.h) *)

Module FrameStore.

(** Number of channels of a stored frame: R, G, B, A. *)
Definition channels : Z := 4.

(** A 32-bit field of the file header, least significant byte first. *)
Definition le32 (n : Z) : list Z :=
  [n mod 256; (n / 256) mod 256; (n / 65536) mod 256; (n / 16777216) mod 256].

Definition of_le32 (b0 b1 b2 b3 : Z) : Z :=
  b0 + 256 * b1 + 65536 * b2 + 16777216 * b3.

(** Modelled from the spec: the layout of a single-frame file, written
    by the Zig library that is not among the sources.  A small fixed
    header (width, height, index, channel count) precedes the raw pixel
    bytes; the four fields are taken as 32-bit, like the arguments. *)
Definition frame_header (width height index : Z) : list Z :=
  le32 width ++ le32 height ++ le32 index ++ le32 channels.

(** Modelled from the spec: [yxcbor_save_frame], declared in
    yxcbor_simple.h and implemented by the Zig library, which is not
    among the sources.  The file is the fixed header followed by the raw
    pixel bytes; malformed dimensions (a zero side, or a pixel buffer
    that is not width*height*4 bytes long) are an invalid argument.  The
    storage of the model never refuses a write. *)
Definition yxcbor_save_frame (path : string) (rgba_data : list Z)
    (width height index : Z) (dest : storage) : status * storage :=
  if bool_decide (width <= 0 \/ height <= 0
                  \/ Z.of_nat (length rgba_data) <> width * height * channels)
  then (InvalidArgument, dest)
  else (Success, <[path := frame_header width height index ++ rgba_data]> dest).

(** A loaded frame: pixel bytes, width, height, index. *)
Record loaded_frame := Loaded {
  out_rgba : list Z;
  out_width : Z;
  out_height : Z;
  out_index : Z
}.

Definition parse_frame (file : list Z) : option loaded_frame :=
  match file with
  | w0 :: w1 :: w2 :: w3 :: h0 :: h1 :: h2 :: h3
    :: i0 :: i1 :: i2 :: i3 :: c0 :: c1 :: c2 :: c3 :: pixels =>
      let w := of_le32 w0 w1 w2 w3 in
      let h := of_le32 h0 h1 h2 h3 in
      let c := of_le32 c0 c1 c2 c3 in
      if bool_decide (c = channels /\ Z.of_nat (length pixels) = w * h * c)
      then Some (Loaded pixels w h (of_le32 i0 i1 i2 i3))
      else None
  | _ => None
  end.

(** Modelled from the spec: [yxcbor_load_frame], declared in
    yxcbor_simple.h and implemented by the Zig library, which is not
    among the sources.  It reverses the save; a missing file, or one
    whose header does not describe its contents, is a storage failure. *)
Definition yxcbor_load_frame (path : string) (dest : storage)
  : status * option loaded_frame :=
  match dest !! path with
  | Some file =>
      match parse_frame file with
      | Some fr => (Success, Some fr)
      | None => (IOError, None)
      end
  | None => (IOError, None)
  end.

(** The four bytes [generate_test_frame] of tests/test_pipeline.c
    stores for pixel (x, y): every operation is the C one on [int], and
    each channel is converted to a byte when stored. *)
Definition test_pixel (size index x y : Z) : list Z :=
  [ to_uint8 (int_div (int_mul (int_div (int_mul x 255) size)
                               (int_rem index 16)) 16);
    to_uint8 (int_div (int_mul (int_div (int_mul y 255) size)
                               (int_rem (int_add index 8) 16)) 16);
    to_uint8 (int_div (int_mul (int_div (int_mul (int_add x y) 255)
                                        (int_mul 2 size))
                               (int_rem (int_add index 4) 16)) 16);
    255 ].

(** The frame the generator writes for a side and a frame index: rows
    from y = 0, pixels from x = 0, four bytes per pixel. *)
Definition generate_test_frame (size index : Z) : list Z :=
  let side := seq 0 (Z.to_nat size) in
  concat (map (fun y : nat =>
    concat (map (fun x : nat =>
      test_pixel size index (Z.of_nat x) (Z.of_nat y)) side)) side).

End FrameStore.

(** ** Animated-image encoder (yingif_ffi.h, [yx_gif_encode]) *)

(** The Rust encoder behind [yx_gif_encode] is not among the sources;
    this module is its model, from section 4.2 of the design document
    and the container layout that section names.  The helper definitions
    below are the parts of [encode_document]. *)
Module ImageEncoder.

(** A 16-bit field, least significant byte first. *)
Definition le16 (n : Z) : list Z := [n mod 256; (n / 256) mod 256].

(** The fixed signature and version bytes, "GIF89a". *)
Definition signature : list Z := [71; 73; 70; 56; 57; 97].

(** A palette entry is 0x00RRGGBB; a colour table stores R, G, B. *)
Definition rgb (c : Z) : list Z :=
  [(c / 65536) mod 256; (c / 256) mod 256; c mod 256].

(** A colour table has 2^bits entries, bits in 1..8. *)
Definition table_bits (palette : list Z) : Z :=
  Z.max 1 (Z.log2_up (Z.of_nat (length palette))).

Definition color_table (palette : list Z) : list Z :=
  let entries := Z.to_nat (2 ^ table_bits palette) in
  concat (map rgb palette) ++ replicate (3 * (entries - length palette))%nat 0.

(** Initial code size: ceil(log2(palette length)), at least 2. *)
Definition min_code_size (palette : list Z) : Z :=
  Z.max 2 (Z.log2_up (Z.of_nat (length palette))).

(** Screen descriptor: side x side, global table present, colour
    resolution 8 bits, background index 0. *)
Definition screen_descriptor (side : Z) (palette : list Z) : list Z :=
  le16 side ++ le16 side ++ [128 + 112 + (table_bits palette - 1); 0; 0].

(** Application extension "NETSCAPE2.0" with loop count 0: loop forever. *)
Definition loop_extension : list Z :=
  [33; 255; 11; 78; 69; 84; 83; 67; 65; 80; 69; 50; 46; 48; 3; 1; 0; 0; 0].

(** Graphic control block: disposal "restore to background" (2, in bits
    2..4 of the packed byte), no transparency, delay in centiseconds. *)
Definition graphic_control (delay_cs : Z) : list Z :=
  [33; 249; 4; 8] ++ le16 delay_cs ++ [0; 0].

(** Image descriptor at the origin; a local colour table follows when
    the frame's palette differs from the global one. *)
Definition image_descriptor (side : Z) (local : option (list Z)) : list Z :=
  [44; 0; 0; 0; 0] ++ le16 side ++ le16 side
  ++ match local with
     | Some palette => [128 + (table_bits palette - 1)] ++ color_table palette
     | None => [0]
     end.

(** *** LZW *)

Record lzw_state := Lzw {
  dict : gmap (Z * Z) Z;      (* (prefix code, next index) to code *)
  next_code : Z;
  code_width : Z;
  prefix : option Z;
  emitted : list (Z * Z)      (* (code, width), latest first *)
}.

Definition clear_code (mcs : Z) : Z := 2 ^ mcs.
Definition end_code (mcs : Z) : Z := 2 ^ mcs + 1.

Definition lzw_init (mcs : Z) : lzw_state :=
  Lzw ∅ (2 ^ mcs + 2) (mcs + 1) None [(clear_code mcs, mcs + 1)].

(** Width after the code numbered [next] has been assigned. *)
Definition grow (next width : Z) : Z :=
  if bool_decide (next = 2 ^ width /\ width < 12) then width + 1 else width.

Definition lzw_step (mcs : Z) (st : lzw_state) (k : Z) : lzw_state :=
  match prefix st with
  | None => Lzw (dict st) (next_code st) (code_width st) (Some k) (emitted st)
  | Some p =>
      match dict st !! (p, k) with
      | Some c =>
          Lzw (dict st) (next_code st) (code_width st) (Some c) (emitted st)
      | None =>
          let out := (p, code_width st) :: emitted st in
          if bool_decide (next_code st < 4096)
          then Lzw (<[(p, k) := next_code st]> (dict st)) (next_code st + 1)
                   (grow (next_code st) (code_width st)) (Some k) out
          else Lzw ∅ (2 ^ mcs + 2) (mcs + 1) (Some k)
                   ((clear_code mcs, code_width st) :: out)
      end
  end.

Definition lzw_finish (mcs : Z) (st : lzw_state) : list (Z * Z) :=
  match prefix st with
  | None => rev ((end_code mcs, code_width st) :: emitted st)
  | Some p =>
      let width :=
        if bool_decide (next_code st < 4096)
        then grow (next_code st) (code_width st) else code_width st in
      rev ((end_code mcs, width) :: (p, code_width st) :: emitted st)
  end.

(** Modelled from the spec: the LZW coder of the Rust encoder, which is
    not among the sources.  A clear code and an end code sit right above
    the raw alphabet; the code width grows by one bit when the codes of
    the current width are used up, up to 12 bits, where a clear code
    resets the dictionary. *)
Definition lzw_codes (mcs : Z) (pixels : list Z) : list (Z * Z) :=
  lzw_finish mcs (fold_left (lzw_step mcs) pixels (lzw_init mcs)).

(** Codes are packed least significant bit first.  [acc] holds [nbits]
    pending bits, fewer than 8 between codes; a code is at most 12 bits
    wide, so at most two bytes are completed per code. *)
Fixpoint pack (codes : list (Z * Z)) (acc nbits : Z) : list Z :=
  match codes with
  | [] => if bool_decide (0 < nbits) then [acc mod 256] else []
  | (code, width) :: rest =>
      let acc := acc + code * 2 ^ nbits in
      let nbits := nbits + width in
      if bool_decide (16 <= nbits)
      then acc mod 256 :: (acc / 256) mod 256 :: pack rest (acc / 65536) (nbits - 16)
      else if bool_decide (8 <= nbits)
      then acc mod 256 :: pack rest (acc / 256) (nbits - 8)
      else pack rest acc nbits
  end.

(** Sub-blocks of at most 255 bytes, each prefixed by its length.
    [block] is the block being filled, latest byte first. *)
Fixpoint sub_blocks (bytes : list Z) (block : list Z) : list Z :=
  match bytes with
  | [] =>
      match block with
      | [] => []
      | _ => Z.of_nat (length block) :: rev block
      end
  | b :: rest =>
      if bool_decide (length block = 255%nat)
      then (255 :: rev block) ++ sub_blocks rest [b]
      else sub_blocks rest (b :: block)
  end.

(** Image data: code size byte, sub-blocks, zero-length terminator. *)
Definition image_data (palette pixels : list Z) : list Z :=
  let mcs := min_code_size palette in
  [mcs] ++ sub_blocks (pack (lzw_codes mcs pixels) 0 0) [] ++ [0].

(** *** The document *)

Definition frame_block (side delay_cs : Z) (global palette pixels : list Z)
  : list Z :=
  graphic_control delay_cs
  ++ image_descriptor side
       (if bool_decide (palette = global) then None else Some palette)
  ++ image_data palette pixels.

(** The pixels of frame number [i] in the flat index buffer. *)
Definition frame_pixels (indices : list Z) (side : Z) (i : nat) : list Z :=
  let n := Z.to_nat (side * side) in
  take n (drop (i * n) indices).

(** Modelled from the spec: the byte stream of the Rust encoder, which
    is not among the sources, in the order of section 4.2: signature,
    screen descriptor, global colour table seeded from the first frame's
    palette, loop extension, the frames, one trailer byte. *)
Definition document (indices : list Z) (palettes : list (list Z))
    (side delay_cs : Z) : list Z :=
  let global := default [] (head palettes) in
  signature
  ++ screen_descriptor side global
  ++ color_table global
  ++ loop_extension
  ++ concat (imap (fun i palette =>
       frame_block side delay_cs global palette (frame_pixels indices side i))
       palettes)
  ++ [59].

(** Inconsistent frame or palette dimensions. *)
Definition bad_dimensions (indices : list Z) (palettes : list (list Z))
    (frame_count side delay_cs : Z) : Prop :=
  frame_count <= 0 \/ side <= 0 \/ 65535 < side
  \/ delay_cs < 0 \/ 65535 < delay_cs
  \/ Z.of_nat (length palettes) <> frame_count
  \/ Z.of_nat (length indices) <> frame_count * side * side
  \/ Exists (fun p : list Z => p = [] \/ (256 < length p)%nat) palettes.

(** Every index of every frame is below its palette's length. *)
Definition indices_in_range (indices : list Z) (palettes : list (list Z))
    (side : Z) : Prop :=
  Forall (fun ip : nat * list Z =>
            Forall (fun k => 0 <= k < Z.of_nat (length ip.2))
                   (frame_pixels indices side ip.1))
         (imap pair palettes).

(** Result of an encode call: the status, the output buffer afterwards,
    and [*out_len] afterwards (bytes written). *)
Record encoded := Encoded {
  enc_status : status;
  enc_buf : list Z;
  enc_len : Z
}.

(** Modelled from the spec: [yx_gif_encode] ([encode_document]),
    declared in yingif_ffi.h and implemented by the Rust library, which
    is not among the sources.  [out_buf] is the caller's buffer on entry
    and [capacity] the value of [*out_len] on entry; the output must fit
    both.  The size of the output is known before anything is written,
    so a failure leaves the buffer untouched and reports zero bytes. *)
Definition encode_document (indices : list Z) (palettes : list (list Z))
    (frame_count side delay_cs : Z) (out_buf : list Z) (capacity : Z)
  : encoded :=
  if decide (bad_dimensions indices palettes frame_count side delay_cs)
  then Encoded InvalidArgument out_buf 0
  else if decide (indices_in_range indices palettes side)
  then
    let bytes := document indices palettes side delay_cs in
    if bool_decide (Z.of_nat (length bytes) <= capacity
                    /\ (length bytes <= length out_buf)%nat)
    then Encoded Success (bytes ++ drop (length bytes) out_buf)
                 (Z.of_nat (length bytes))
    else Encoded BufferTooSmall out_buf 0
  else Encoded EncodeError out_buf 0.

(** The smallest document: one frame of one pixel, a two-colour
    palette, a 100-byte output buffer. *)
Definition tiny_encode : encoded :=
  encode_document [0] [[0; 16777215]] 1 1 10 (replicate 100 0) 100.

End ImageEncoder.

(** ** Batch quantizer (yingif_ffi.h, [yx_proc_batch_rgba8]) *)

(** The Rust quantizer behind [yx_proc_batch_rgba8] is not among the
    sources; this module is its model, from section 4.1 of the design
    document. *)
Module FrameQuantizer.

(** A colour is an (R, G, B) triple; alpha is not carried. *)
Definition color : Type := Z * Z * Z.

(** The design document leaves the downsampling policy and the colour
    reduction algorithm to the implementer and constrains their results:
    a frame is resampled to target_side x target_side, and a palette has
    at least one and at most the requested number of colours.  Being
    functions, both are deterministic. *)
Class Policy := {
  downsample : Z -> Z -> Z -> list Z -> list color;
  reduce_colors : Z -> list color -> list color;
  downsample_length : forall width height target_side frame,
    length (downsample width height target_side frame)
      = Z.to_nat (target_side * target_side);
  reduce_colors_bounds : forall palette_size pixels,
    1 <= palette_size ->
    (1 <= length (reduce_colors palette_size pixels))%nat
    /\ Z.of_nat (length (reduce_colors palette_size pixels)) <= palette_size
}.

(** Squared Euclidean distance in the RGB cube. *)
Definition dist2 (c d : color) : Z :=
  let '(r1, g1, b1) := c in
  let '(r2, g2, b2) := d in
  (r1 - r2) * (r1 - r2) + (g1 - g2) * (g1 - g2) + (b1 - b2) * (b1 - b2).

(** Scan of the palette from entry [i] on; [best] is the closest entry
    so far, at distance [best_d].  Only a strictly closer entry replaces
    it, so ties go to the lowest index. *)
Fixpoint nearest_from (palette : list color) (c : color) (i best best_d : Z)
  : Z :=
  match palette with
  | [] => best
  | p :: rest =>
      if bool_decide (dist2 p c < best_d)
      then nearest_from rest c (i + 1) i (dist2 p c)
      else nearest_from rest c (i + 1) best best_d
  end.

Definition nearest (palette : list color) (c : color) : Z :=
  match palette with
  | [] => 0
  | p :: rest => nearest_from rest c 1 0 (dist2 p c)
  end.

(** Output buffers of a batch: the flat index buffer and one palette
    per frame. *)
Record outputs := Outputs {
  out_indices : list Z;
  out_palettes : list (list color)
}.

Section Batch.
Context {policy : Policy}.

(** Modelled from the spec: the per-frame work of the Rust quantizer,
    which is not among the sources: resample, build the palette, map
    every pixel to its nearest palette entry. *)
Definition quantize_frame (width height target_side palette_size : Z)
    (frame : list Z) : list Z * list color :=
  let pixels := downsample width height target_side frame in
  let palette := reduce_colors palette_size pixels in
  (map (nearest palette) pixels, palette).

Definition bad_arguments (width height target_side palette_size : Z) : Prop :=
  width <= 0 \/ height <= 0 \/ target_side <= 0
  \/ palette_size < 1 \/ 256 < palette_size.

(** Modelled from the spec: [yx_proc_batch_rgba8] ([quantize_batch]),
    declared in yingif_ffi.h and implemented by the Rust library, which
    is not among the sources.  [alloc_ok] tells whether the working
    buffers could be allocated and [out] is the contents of the
    caller's output buffers on entry.  All frames are computed before
    any is stored, so either all are produced or none is. *)
Definition quantize_batch (frames : list (list Z))
    (width height target_side palette_size : Z)
    (alloc_ok : bool) (out : outputs) : status * outputs :=
  if decide (bad_arguments width height target_side palette_size)
  then (InvalidArgument, out)
  else if negb alloc_ok
  then (OutOfMemory, out)
  else
    let quantized :=
      map (quantize_frame width height target_side palette_size) frames in
    (Success, Outputs (concat (map fst quantized)) (map snd quantized)).
End Batch.

(** *** One admissible policy: nearest-neighbour sampling and the first
    distinct colours in scan order *)

(** Channel [c] of input pixel (x, y); 0 outside the buffer. *)
Definition channel (width : Z) (frame : list Z) (x y c : Z) : Z :=
  default 0 (frame !! Z.to_nat (4 * (y * width + x) + c)).

Definition sample (width height target_side : Z) (frame : list Z) (k : nat)
  : color :=
  let x := (Z.of_nat k mod target_side) * width / target_side in
  let y := (Z.of_nat k / target_side) * height / target_side in
  (channel width frame x y 0, channel width frame x y 1,
   channel width frame x y 2).

Definition nearest_neighbour (width height target_side : Z) (frame : list Z)
  : list color :=
  map (sample width height target_side frame)
      (seq 0 (Z.to_nat (target_side * target_side))).

(** The first [room] distinct colours of [pixels] not yet in [seen]. *)
Fixpoint first_colors (room : nat) (seen pixels : list color) : list color :=
  match pixels with
  | [] => []
  | c :: rest =>
      match room with
      | O => []
      | S room' =>
          if bool_decide (c ∈ seen)
          then first_colors room seen rest
          else c :: first_colors room' (c :: seen) rest
      end
  end.

Definition scan_palette (palette_size : Z) (pixels : list color) : list color :=
  match first_colors (Z.to_nat palette_size) [] pixels with
  | [] => [(0, 0, 0)]
  | palette => palette
  end.

(** A batch of two 2x2 frames from the pipeline test's generator. *)
Definition test_frames : list (list Z) :=
  [FrameStore.generate_test_frame 2 1; FrameStore.generate_test_frame 2 2].

End FrameQuantizer.

(** ** tests/test_pipeline.c *)

(** The data generators, the check loops and the exit code of the
    pipeline test.  [generate_test_frame] is embedded above, with the
    frame store it feeds. *)
Module PipelineTest.

(** Element [i] of a C array; a read past the end is outside the model
    and yields 0. *)
Definition at_index (buf : list Z) (i : nat) : Z := default 0 (buf !! i).

(** A [for] loop over i, i+1, ..., i+n-1 that stops at the first index
    where [hit] holds. *)
Fixpoint first_hit (hit : nat -> bool) (i n : nat) : bool :=
  match n with
  | O => false
  | S n' => if hit i then true else first_hit hit (S i) n'
  end.

(** [test_zig_save_load]: [matches] starts at 1 and is cleared at the
    first byte where the two buffers differ, over size*size*4 bytes. *)
Definition matches (frame loaded_frame : list Z) (size : Z) : Z :=
  if first_hit (fun i => bool_decide (at_index frame i <> at_index loaded_frame i))
               0 (Z.to_nat (size * size * 4))
  then 0 else 1.

(** [test_rust_processing]: [has_data] is set at the first non-zero
    index among the first output_size*output_size. *)
Definition has_data (out_indices : list Z) (output_size : Z) : Z :=
  if first_hit (fun i => bool_decide (at_index out_indices i <> 0))
               0 (Z.to_nat (output_size * output_size))
  then 1 else 0.

(** [test_rust_processing]: [has_colors] is set at the first of the
    first 256 palette entries that is neither 0 nor 0xFF000000. *)
Definition has_colors (out_palettes : list Z) : Z :=
  if first_hit (fun i => bool_decide (at_index out_palettes i <> 0)
                         && bool_decide (at_index out_palettes i <> 0xFF000000))
               0 256
  then 1 else 0.

(** [test_gif_encoding]: the index written at position f*size*size + i. *)
Definition pattern_index (f i : Z) : Z := (i + f * 10) mod 256.

Definition gif_test_indices (n_frames size : Z) : list Z :=
  concat (map (fun f => map (pattern_index f) (seqZ 0 (size * size)))
              (seqZ 0 n_frames)).

(** [test_gif_encoding]: the palette entry written at position
    f*256 + i, the same for every frame. *)
Definition palette_entry (i : Z) : Z :=
  Z.lor (Z.lor (Z.shiftl i 16) (Z.shiftl (i + 64) 8)) (Z.land (i + 128) 255).

Definition gif_test_palettes (n_frames : Z) : list Z :=
  concat (map (fun _ : Z => map palette_entry (seqZ 0 256)) (seqZ 0 n_frames)).

(** [main]: one failure is counted for every test that returns
    non-zero; the count is the exit code. *)
Definition main (test_zig_save_load test_rust_processing test_gif_encoding : Z)
  : Z :=
  let failed := 0 in
  let failed := if bool_decide (test_zig_save_load <> 0)
                then failed + 1 else failed in
  let failed := if bool_decide (test_rust_processing <> 0)
                then failed + 1 else failed in
  let failed := if bool_decide (test_gif_encoding <> 0)
                then failed + 1 else failed in
  failed.

End PipelineTest.

(** ** The smallest input the encoder's interface admits *)

(** One frame of one pixel with the 256-entry palette of the pipeline
    test, encoded into a 1024-byte buffer. *)
Definition one_pixel_encode : ImageEncoder.encoded :=
  ImageEncoder.encode_document
    (PipelineTest.gif_test_indices 1 1) [PipelineTest.gif_test_palettes 1]
    1 1 10 (replicate 1024 0) 1024.

(** * Properties *)

(** Success is status 0 and every failure is a negative status. *)
Lemma status_code_sign (st : status) :
  (st = Success -> status_code st = 0)
  /\ (st <> Success -> status_code st < 0).
Proof. by destruct st; split; intros; cbn; try lia. Qed.

(** ** Lists built from rows of one length *)

Lemma length_concat_uniform {A B} (g : A -> list B) (l : list A) (m : nat) :
  (forall x, length (g x) = m) ->
  length (concat (map g l)) = (length l * m)%nat.
Proof.
  intros Hlen. induction l as [|x l IH]; [done|].
  cbn. rewrite length_app, Hlen, IH. done.
Qed.

Lemma lookup_concat_uniform {A B} (g : A -> list B) (l : list A)
    (m k i : nat) (a : A) :
  (forall x, length (g x) = m) ->
  l !! k = Some a -> (i < m)%nat ->
  concat (map g l) !! (k * m + i)%nat = g a !! i.
Proof.
  intros Hlen. revert k.
  induction l as [|x l IH]; intros k Hk Hi; [done|].
  destruct k as [|k]; cbn.
  - simplify_eq/=. rewrite lookup_app_l; [done | rewrite Hlen; lia].
  - rewrite lookup_app_r by (rewrite Hlen; lia). rewrite Hlen.
    replace (m + k * m + i - m)%nat with (k * m + i)%nat by lia.
    by apply IH.
Qed.

(** ** The streaming stubs *)

Section StreamingStub.
Import YxcborStub.

Lemma step_storage (c : call) (dest : storage) : snd (step c dest) = dest.
Proof. by destruct c as [m| | |[m|]| |]. Qed.

Lemma run_storage (cs : list call) (dest : storage) :
  snd (run cs dest) = dest.
Proof.
  induction cs as [|c cs IH]; [done|].
  cbn [run]. unfold bind.
  destruct (step c dest) as [o d] eqn:Hstep.
  assert (d = dest) as -> by (rewrite <- (step_storage c dest); by rewrite Hstep).
  destruct (run cs dest) as [os d'] eqn:Hrun.
  cbn in *. by subst.
Qed.

Lemma run_cons (c : call) (cs : list call) (dest : storage) :
  fst (run (c :: cs) dest) = fst (step c dest) :: fst (run cs dest).
Proof.
  cbn [run]. unfold bind.
  destruct (step c dest) as [o d] eqn:Hstep.
  assert (d = dest) as -> by (rewrite <- (step_storage c dest); by rewrite Hstep).
  by destruct (run cs dest).
Qed.

Lemma run_app (cs1 cs2 : list call) (dest : storage) :
  fst (run (cs1 ++ cs2) dest) = fst (run cs1 dest) ++ fst (run cs2 dest).
Proof.
  induction cs1 as [|c cs1 IH]; [done|].
  rewrite <- app_comm_cons, !run_cons, IH. done.
Qed.

Lemma call_after_step (pre : list call) (dest : storage) (c : call) :
  call_after pre dest c = fst (step c dest).
Proof. unfold call_after. by rewrite run_storage. Qed.

Lemma run_writes (frames : list (list Z)) (dest : storage) :
  fst (run (map (fun f => write_frame f (Z.of_nat (length f))) frames) dest)
    = map (fun _ => returned 0) frames.
Proof.
  induction frames as [|f frames IH]; [done|].
  cbn [map]. rewrite run_cons, IH. done.
Qed.

Lemma run_reads (bufs : list (list Z)) (dest : storage) :
  fst (run (map (fun b => read_frame b (Z.of_nat (length b))) bufs) dest)
    = map (fun b => returned_buffer 0 b) bufs.
Proof.
  induction bufs as [|b bufs IH]; [done|].
  cbn [map]. rewrite run_cons, IH. done.
Qed.

(** C1, as amended.  A whole streaming session against the stubs: every
    writer call returns 0 ([close_writer] returns nothing); the
    following [open_reader] returns 0 and the fixed manifest
    (32, 64, 64, 0) whatever manifest the writer was opened with; every
    [read_frame] returns 0 and leaves the caller's buffer as it was;
    the destination is never changed. *)
Theorem stub_session_outcomes (dest : storage) (m slot : yx_frame_manifest)
    (frames bufs : list (list Z)) :
  run (writer_session m frames ++ reader_session slot bufs) dest
    = ((returned 0 :: map (fun _ => returned 0) frames ++ [returned_void])
       ++ returned_manifest 0 (Some stub_manifest)
          :: map (fun b => returned_buffer 0 b) bufs,
       dest).
Proof.
  apply injective_projections; [|apply run_storage].
  cbn [fst]. rewrite run_app. unfold writer_session, reader_session.
  rewrite !run_cons, run_app, run_writes, run_reads. done.
Qed.

(** C1 fails on the stubs: after a writer session for one 1x1 frame,
    the reader's manifest announces 32 frames of 64x64. *)
Lemma streaming_round_trip_fails :
  ~ streaming_round_trip ∅ (Manifest 1 1 1 0) [[10; 20; 30; 255]].
Proof.
  intros Hclaim.
  destruct (Hclaim eq_refl (Manifest 0 0 0 0)) as [Hmanifest _].
  rewrite call_after_step in Hmanifest. discriminate Hmanifest.
Qed.

(** C2, as amended.  [write_frame] returns 0 whatever calls came before
    it, in particular after [close_writer] and with no [open_writer]
    at all: the stubs keep no session state. *)
Theorem write_frame_always_succeeds (pre : list call) (dest : storage)
    (data : list Z) (size : Z) :
  call_after pre dest (write_frame data size) = returned 0.
Proof. by rewrite call_after_step. Qed.

(** C2 fails on the stubs: a write after the session was closed
    reports no error. *)
Lemma write_after_close_not_reported :
  ~ reports_error
      (call_after [open_writer (Some (Manifest 1 1 1 0)); close_writer] ∅
                  (write_frame [10; 20; 30; 255] 4)).
Proof. rewrite call_after_step. cbn. lia. Qed.

(** C10.  [yxcbor_open_reader] returns 0 on every call; through a
    non-null pointer it stores the manifest (32, 64, 64, 0), through a
    null pointer it stores nothing; the result does not depend on the
    calls made before it nor on the destination, which it leaves
    unchanged. *)
Theorem open_reader_fixed (pre : list call) (dest : storage)
    (manifest : option yx_frame_manifest) :
  yxcbor_open_reader manifest dest
    = ((0, match manifest with
           | Some _ => Some (Manifest 32 64 64 0)
           | None => None
           end), dest)
  /\ call_after pre dest (open_reader manifest)
     = returned_manifest 0 (match manifest with
                            | Some _ => Some (Manifest 32 64 64 0)
                            | None => None
                            end).
Proof.
  split.
  - by destruct manifest.
  - rewrite call_after_step. by destruct manifest.
Qed.
End StreamingStub.

(** ** The quantizer stub *)

Section QuantizerStub.
Import RustStubs.

(** C6, as amended.  The quantizer stub returns success and leaves the
    index buffer and the palette buffer exactly as the caller passed
    them: it computes no index and no palette, so the indices are
    below the requested palette size after the call exactly when they
    were before it. *)
Theorem process_frame_leaves_buffers (c : process_frame_call) :
  process_frame c = (0, (out_indices c, out_palette c))
  /\ (indices_below (palette_size c) (fst (snd (process_frame c)))
      <-> indices_below (palette_size c) (out_indices c)).
Proof. done. Qed.

(** C6 fails on the stub: the call succeeds and the index buffer holds
    255 for a requested palette of 2. *)
Lemma process_frame_index_not_below :
  fst (process_frame stale_call) = 0
  /\ ~ indices_below (palette_size stale_call)
                     (fst (snd (process_frame stale_call))).
Proof.
  split; [done|].
  intros Hbelow. apply Forall_cons_1 in Hbelow as [Hhead _].
  cbn in Hhead. lia.
Qed.

(** C7, as amended.  The quantizer stub returns 0 for every combination
    of arguments, valid or not: it validates nothing and never returns
    a negative status. *)
Theorem process_frame_returns_zero (c : process_frame_call) :
  fst (process_frame c) = 0.
Proof. done. Qed.

(** C7 fails on the stub: all four scalar arguments are zero and the
    status is not negative. *)
Lemma process_frame_accepts_invalid :
  invalid_arguments zero_call /\ ~ fst (process_frame zero_call) < 0.
Proof. split; [left; done | cbn; lia]. Qed.
End QuantizerStub.

(** ** The single-frame store *)

Section FrameStoreRoundTrip.
Import FrameStore.

Lemma of_le32_le32 (n : Z) :
  0 <= n < 2 ^ 32 ->
  of_le32 (n mod 256) ((n / 256) mod 256) ((n / 65536) mod 256)
          ((n / 16777216) mod 256) = n.
Proof.
  intros Hn. unfold of_le32.
  change (2 ^ 32) with 4294967296 in Hn.
  Z.to_euclidean_division_equations. lia.
Qed.

Lemma parse_frame_header (rgba : list Z) (width height index : Z) :
  0 <= width < 2 ^ 32 -> 0 <= height < 2 ^ 32 -> 0 <= index < 2 ^ 32 ->
  Z.of_nat (length rgba) = width * height * channels ->
  parse_frame (frame_header width height index ++ rgba)
    = Some (Loaded rgba width height index).
Proof.
  intros Hw Hh Hi Hlen. unfold frame_header, le32. cbn [app parse_frame].
  rewrite (of_le32_le32 width), (of_le32_le32 height),
    (of_le32_le32 index), (of_le32_le32 channels)
    by (done || (unfold channels; lia)).
  by rewrite bool_decide_eq_true_2.
Qed.

(** C4.  For a valid frame (width and height positive, width, height
    and index 32-bit values, width*height*4 pixel bytes) and any
    path and prior storage contents, [save_frame] succeeds and a
    [load_frame] of the same path afterwards succeeds and returns the
    same pixel bytes, width, height and index. *)
Theorem save_load_round_trip (dest : storage) (path : string)
    (rgba : list Z) (width height index : Z) :
  0 < width < 2 ^ 32 -> 0 < height < 2 ^ 32 -> 0 <= index < 2 ^ 32 ->
  Z.of_nat (length rgba) = width * height * 4 ->
  exists dest',
    yxcbor_save_frame path rgba width height index dest = (Success, dest')
    /\ yxcbor_load_frame path dest'
       = (Success, Some (Loaded rgba width height index)).
Proof.
  intros Hw Hh Hi Hlen. eexists. split.
  - unfold yxcbor_save_frame.
    rewrite bool_decide_eq_false_2; [done|]. unfold channels. lia.
  - unfold yxcbor_load_frame. rewrite lookup_insert_eq.
    rewrite parse_frame_header; [done | lia | lia | lia | done].
Qed.

Lemma save_load_round_trip_witness :
  exists dest',
    yxcbor_save_frame "test_frame.yxfr" (generate_test_frame 2 0) 2 2 0 ∅
      = (Success, dest')
    /\ yxcbor_load_frame "test_frame.yxfr" dest'
       = (Success, Some (Loaded (generate_test_frame 2 0) 2 2 0)).
Proof.
  apply (save_load_round_trip ∅ "test_frame.yxfr" (generate_test_frame 2 0) 2 2 0);
    [lia | lia | lia | reflexivity].
Defined.
End FrameStoreRoundTrip.

(** ** The encoder and the size estimator *)

Section Encoder.
Import ImageEncoder RustStubs.

Lemma wrap_int32_small (z : Z) : - 2 ^ 31 <= z < 2 ^ 31 -> wrap_int32 z = z.
Proof. intros Hz. unfold wrap_int32. rewrite Z.mod_small; lia. Qed.

Lemma to_size_t_small (z : Z) : 0 <= z < 2 ^ 64 -> to_size_t z = z.
Proof. intros Hz. unfold to_size_t. by rewrite Z.mod_small. Qed.

Lemma estimate_in_range (w h frames : Z) :
  0 <= w -> 0 <= h -> 0 < frames -> w * h * frames < 2 ^ 31 ->
  yingif_estimate_gif_size w h frames = w * h * frames.
Proof.
  intros Hw Hh Hf Hbound. unfold yingif_estimate_gif_size.
  assert (0 <= w * h) by lia.
  assert (w * h <= w * h * frames) by nia.
  rewrite (wrap_int32_small (w * h)) by lia.
  rewrite wrap_int32_small by lia.
  apply to_size_t_small. lia.
Qed.

(** What a successful encode tells about its arguments and result. *)
Lemma encode_success (indices : list Z) (palettes : list (list Z))
    (frame_count side delay_cs : Z) (out_buf : list Z) (capacity : Z) :
  enc_status (encode_document indices palettes frame_count side delay_cs
                              out_buf capacity) = Success ->
  ~ bad_dimensions indices palettes frame_count side delay_cs
  /\ encode_document indices palettes frame_count side delay_cs out_buf capacity
     = let bytes := document indices palettes side delay_cs in
       Encoded Success (bytes ++ drop (length bytes) out_buf)
               (Z.of_nat (length bytes)).
Proof.
  unfold encode_document.
  destruct (decide (bad_dimensions _ _ _ _ _)); [done|].
  destruct (decide (indices_in_range _ _ _)); [|done].
  case_bool_decide; done.
Qed.

(** C5.  Whenever [encode_document] succeeds, the first six bytes of
    the output buffer are the signature "GIF89a". *)
Theorem encode_signature (indices : list Z) (palettes : list (list Z))
    (frame_count side delay_cs : Z) (out_buf : list Z) (capacity : Z) :
  enc_status (encode_document indices palettes frame_count side delay_cs
                              out_buf capacity) = Success ->
  take 6 (enc_buf (encode_document indices palettes frame_count side
                                   delay_cs out_buf capacity))
    = [71; 73; 70; 56; 57; 97].
Proof.
  intros Hok. apply encode_success in Hok as [_ ->]. done.
Qed.

Lemma encode_signature_witness :
  take 6 (enc_buf tiny_encode) = [71; 73; 70; 56; 57; 97].
Proof.
  apply (encode_signature [0] [[0; 16777215]] 1 1 10 (replicate 100 0) 100).
  vm_compute. reflexivity.
Defined.

Lemma color_table_length (palette : list Z) :
  (3 * length palette <= length (color_table palette))%nat.
Proof.
  unfold color_table.
  rewrite length_app, (length_concat_uniform rgb palette 3) by done. lia.
Qed.

(** Every document holds the signature, the screen descriptor, the
    global colour table, the loop extension and the trailer. *)
Lemma document_length (indices : list Z) (palette : list Z)
    (palettes : list (list Z)) (side delay_cs : Z) :
  (33 + 3 * length palette
   <= length (document indices (palette :: palettes) side delay_cs))%nat.
Proof.
  unfold document. cbn [head default]. unfold id.
  rewrite !length_app.
  pose proof (color_table_length palette).
  cbn [length signature screen_descriptor le16 loop_extension app]. lia.
Qed.

(** C3, as amended.  Called with the frame count, the side and the
    palette size of a successful encode, whose product fits a C int, the
    estimator returns exactly that product, frame_count * side *
    palette_size: it allows nothing for the structure of the container.
    The encode writes at least 33 + 3 * palette_size bytes, so the
    estimate is below the bytes written whenever frame_count * side is
    at most 3. *)
Theorem estimate_is_product (indices : list Z) (palettes : list (list Z))
    (frame_count side delay_cs palette_size : Z) (out_buf : list Z)
    (capacity : Z) :
  Forall (fun p => Z.of_nat (length p) = palette_size) palettes ->
  frame_count * side * palette_size < 2 ^ 31 ->
  enc_status (encode_document indices palettes frame_count side delay_cs
                              out_buf capacity) = Success ->
  yingif_estimate_gif_size frame_count side palette_size
    = frame_count * side * palette_size
  /\ 33 + 3 * palette_size
     <= enc_len (encode_document indices palettes frame_count side delay_cs
                                 out_buf capacity)
  /\ (frame_count * side <= 3 ->
      yingif_estimate_gif_size frame_count side palette_size
        < enc_len (encode_document indices palettes frame_count side
                                   delay_cs out_buf capacity)).
Proof.
  intros Hsize Hint Hok. apply encode_success in Hok as [Hdims ->].
  cbn [enc_len].
  destruct (decide (frame_count <= 0)); [by destruct Hdims; left|].
  destruct (decide (side <= 0)); [by destruct Hdims; right; left|].
  destruct (decide (Z.of_nat (length palettes) = frame_count)) as [Hn|];
    [|by destruct Hdims; do 5 right; left].
  destruct palettes as [|palette palettes]; [cbn in Hn; lia|].
  apply Forall_cons_1 in Hsize as [Hpalette _].
  assert (1 <= palette_size).
  { destruct (decide (palette = [])) as [-> |Hne].
    - destruct Hdims. do 7 right. apply Exists_cons_hd. by left.
    - destruct palette; [done | cbn in Hpalette; lia]. }
  pose proof (document_length indices palette palettes side delay_cs).
  assert (yingif_estimate_gif_size frame_count side palette_size
          = frame_count * side * palette_size) as ->.
  { apply estimate_in_range; nia. }
  split; [done|]. split; [lia|]. intros Hsmall. nia.
Qed.

Lemma estimate_is_product_witness :
  yingif_estimate_gif_size 1 1 256 = 1 * 1 * 256
  /\ 33 + 3 * 256 <= enc_len one_pixel_encode
  /\ (1 * 1 <= 3 -> yingif_estimate_gif_size 1 1 256 < enc_len one_pixel_encode).
Proof.
  apply (estimate_is_product (PipelineTest.gif_test_indices 1 1)
           [PipelineTest.gif_test_palettes 1] 1 1 10 256 (replicate 1024 0) 1024).
  - repeat constructor.
  - lia.
  - vm_compute. reflexivity.
Defined.

(** C3 fails: one frame of one pixel with a 256-entry palette encodes
    successfully to 826 bytes, and the estimate for frame count 1, side
    1 and palette size 256 is 256. *)
Lemma estimate_below_encoded_size :
  enc_status one_pixel_encode = Success
  /\ ~ yingif_estimate_gif_size 1 1 256 >= enc_len one_pixel_encode.
Proof. split; [vm_compute; reflexivity | vm_compute; intros H; by apply H]. Qed.
End Encoder.

(** ** The batch quantizer *)

Section Quantizer.
Import FrameQuantizer.

Lemma first_colors_length (room : nat) (seen pixels : list color) :
  (length (first_colors room seen pixels) <= room)%nat.
Proof.
  revert room seen.
  induction pixels as [|c rest IH]; intros room seen; cbn; [lia|].
  destruct room as [|room']; cbn; [lia|].
  case_bool_decide; cbn.
  - apply IH.
  - specialize (IH room' (c :: seen)). lia.
Qed.

Lemma scan_palette_bounds (palette_size : Z) (pixels : list color) :
  1 <= palette_size ->
  (1 <= length (scan_palette palette_size pixels))%nat
  /\ Z.of_nat (length (scan_palette palette_size pixels)) <= palette_size.
Proof.
  intros HP. unfold scan_palette.
  pose proof (first_colors_length (Z.to_nat palette_size) [] pixels) as Hlen.
  destruct (first_colors _ _ _) as [|c palette]; cbn in *; lia.
Qed.

Lemma nearest_neighbour_length (width height target_side : Z)
    (frame : list Z) :
  length (nearest_neighbour width height target_side frame)
    = Z.to_nat (target_side * target_side).
Proof. unfold nearest_neighbour. by rewrite length_map, length_seq. Qed.

#[local] Instance scan_policy : Policy := {|
  downsample := nearest_neighbour;
  reduce_colors := scan_palette;
  downsample_length := nearest_neighbour_length;
  reduce_colors_bounds := scan_palette_bounds
|}.

Context {policy : Policy}.

Lemma nearest_from_bound (palette : list color) (c : color)
    (i best best_d : Z) :
  0 <= best < i ->
  0 <= nearest_from palette c i best best_d < i + Z.of_nat (length palette).
Proof.
  revert i best best_d.
  induction palette as [|p rest IH]; intros i best best_d Hbest; cbn [nearest_from].
  - cbn. lia.
  - rewrite length_cons, Nat2Z.inj_succ.
    case_bool_decide.
    + specialize (IH (i + 1) i (dist2 p c)). lia.
    + specialize (IH (i + 1) best best_d). lia.
Qed.

(** Every index the model produces is a position of the frame's palette,
    and the palette has at most the requested number of colours. *)
Lemma quantize_frame_in_palette (width height target_side palette_size : Z)
    (frame : list Z) :
  1 <= palette_size ->
  let '(indices, palette) :=
    quantize_frame width height target_side palette_size frame in
  Forall (fun k => 0 <= k < Z.of_nat (length palette)) indices
  /\ Z.of_nat (length palette) <= palette_size.
Proof.
  intros HP. unfold quantize_frame.
  destruct (reduce_colors_bounds palette_size
              (downsample width height target_side frame) HP) as [Hne Hle].
  split; [|done].
  apply Forall_map, Forall_forall. intros c _.
  destruct (reduce_colors _ _) as [|p rest]; cbn in *; [lia|].
  pose proof (nearest_from_bound rest c 1 0 (dist2 p c)). lia.
Qed.

Lemma quantize_frames_indices (frames : list (list Z))
    (width height target_side palette_size : Z) :
  Z.of_nat (length (concat (map fst
    (map (quantize_frame width height target_side palette_size) frames))))
  = Z.of_nat (length frames) * target_side * target_side.
Proof.
  induction frames as [|f frames IH]; [done|].
  cbn [map concat length]. rewrite length_app, Nat2Z.inj_add, IH.
  unfold quantize_frame. cbn [fst].
  rewrite length_map, downsample_length. nia.
Qed.

End Quantizer.

Section QuantizerScenario.
Import FrameQuantizer.

End QuantizerScenario.

(** ** More on the streaming stubs *)

Section StubSessions.
Import YxcborStub.

Lemma step_any_storage (c : call) (dest dest' : storage) :
  fst (step c dest) = fst (step c dest').
Proof. by destruct c as [m| | |[m|]| |]. Qed.

Lemma status_of_step (c : call) (dest : storage) :
  status_of (fst (step c dest)) = None
  \/ status_of (fst (step c dest)) = Some 0.
Proof. destruct c as [m| | |[m|]| |]; cbn; auto. Qed.

(** X1.  The stubs are stateless: in any sequence of calls, against any
    destination, each call has the outcome it has as the only call
    against any other destination, and the destination is unchanged at
    the end. *)
Theorem session_is_stateless (cs : list call) (dest dest' : storage) :
  run cs dest = (map (call_after [] dest') cs, dest).
Proof.
  apply injective_projections; [|apply run_storage]. cbn [fst].
  induction cs as [|c cs IH]; [done|].
  rewrite run_cons, IH. cbn [map]. f_equal.
  rewrite call_after_step. apply step_any_storage.
Qed.

(** X2.  No call of any session reports a failure: every status a stub
    returns is 0, and the two close functions return nothing. *)
Theorem session_never_fails (cs : list call) (dest : storage) :
  Forall (fun o => (status_of o = None \/ status_of o = Some 0)
                   /\ ~ reports_error o)
         (fst (run cs dest)).
Proof.
  induction cs as [|c cs IH]; [by constructor|].
  rewrite run_cons. constructor; [|done].
  unfold reports_error.
  destruct (status_of_step c dest) as [-> | ->]; split; auto; lia.
Qed.
End StubSessions.

(** ** More on the size estimator stub *)

Section Estimator.
Import RustStubs.

Lemma wrap_int32_range (z : Z) : - 2 ^ 31 <= wrap_int32 z < 2 ^ 31.
Proof.
  unfold wrap_int32.
  pose proof (Z.mod_pos_bound (z + 2 ^ 31) (2 ^ 32)). lia.
Qed.

Lemma wrap_int32_shift (z k : Z) : wrap_int32 (z + k * 2 ^ 32) = wrap_int32 z.
Proof.
  unfold wrap_int32.
  replace (z + k * 2 ^ 32 + 2 ^ 31) with (z + 2 ^ 31 + k * 2 ^ 32) by lia.
  by rewrite Z_mod_plus_full.
Qed.

Lemma wrap_int32_decompose (z : Z) :
  wrap_int32 z = z + (- ((z + 2 ^ 31) / 2 ^ 32)) * 2 ^ 32.
Proof.
  unfold wrap_int32.
  pose proof (Z.div_mod (z + 2 ^ 31) (2 ^ 32)). lia.
Qed.

Lemma wrap_int32_mul (a b : Z) :
  wrap_int32 (wrap_int32 a * b) = wrap_int32 (a * b).
Proof.
  rewrite (wrap_int32_decompose a).
  replace ((a + - ((a + 2 ^ 31) / 2 ^ 32) * 2 ^ 32) * b)
    with (a * b + (- ((a + 2 ^ 31) / 2 ^ 32) * b) * 2 ^ 32) by lia.
  apply wrap_int32_shift.
Qed.

(** The estimate is the product of its three arguments, reduced to an
    [int] and converted to [size_t]. *)
Lemma estimate_of_product (w h frames : Z) :
  yingif_estimate_gif_size w h frames
    = to_size_t (wrap_int32 (w * h * frames)).
Proof. unfold yingif_estimate_gif_size. by rewrite wrap_int32_mul. Qed.

(** X3.  When neither product overflows an [int], the estimate is the
    product w*h*frames if that is non-negative, and 2^64 plus the
    product if it is negative: a negative [int] becomes a [size_t] close
    to the top of its range. *)
Theorem estimate_value (w h frames : Z) :
  - 2 ^ 31 <= w * h < 2 ^ 31 ->
  - 2 ^ 31 <= w * h * frames < 2 ^ 31 ->
  yingif_estimate_gif_size w h frames
    = if decide (0 <= w * h * frames)
      then w * h * frames
      else 2 ^ 64 + w * h * frames.
Proof.
  intros Hwh Hp. rewrite estimate_of_product, wrap_int32_small by done.
  unfold to_size_t. case_decide.
  - apply Z.mod_small. lia.
  - symmetry. apply (Z.mod_unique_pos _ _ (-1)); lia.
Qed.

Lemma estimate_value_witness :
  yingif_estimate_gif_size (-1) 2 3 = 2 ^ 64 + -1 * 2 * 3.
Proof.
  apply (estimate_value (-1) 2 3); lia.
Defined.

(** X4.  In the two's complement reading of [int], the estimate does not
    depend on the order of its three arguments. *)
Theorem estimate_argument_order (w h frames : Z) :
  yingif_estimate_gif_size w h frames = yingif_estimate_gif_size h w frames
  /\ yingif_estimate_gif_size w h frames = yingif_estimate_gif_size frames h w.
Proof.
  rewrite !estimate_of_product. split; do 2 f_equal; lia.
Qed.

(** X5.  When neither product overflows an [int], the estimate is 0
    exactly when one of the three arguments is 0. *)
Theorem estimate_zero (w h frames : Z) :
  - 2 ^ 31 <= w * h < 2 ^ 31 ->
  - 2 ^ 31 <= w * h * frames < 2 ^ 31 ->
  yingif_estimate_gif_size w h frames = 0
  <-> w = 0 \/ h = 0 \/ frames = 0.
Proof.
  intros Hwh Hp. rewrite estimate_of_product, wrap_int32_small by done.
  unfold to_size_t. split.
  - intros Hzero.
    assert (w * h * frames = 0) as Hprod.
    { destruct (decide (0 <= w * h * frames)).
      - rewrite Z.mod_small in Hzero; lia.
      - rewrite <- (Z.mod_unique_pos _ _ (-1) (2 ^ 64 + w * h * frames)) in Hzero;
          lia. }
    apply Z.mul_eq_0 in Hprod as [Hprod|]; [|by auto].
    apply Z.mul_eq_0 in Hprod as [|]; auto.
  - intros [-> | [-> | ->]]; by rewrite ?Z.mul_0_r.
Qed.

Lemma estimate_zero_witness :
  yingif_estimate_gif_size 256 0 4 = 0 <-> 256 = 0 \/ 0 = 0 \/ 4 = 0.
Proof.
  apply (estimate_zero 256 0 4); lia.
Defined.

(** X6.  Every estimate is either below 2^31 or at least 2^64 - 2^31:
    no call returns a size in between. *)
Theorem estimate_gap (w h frames : Z) :
  0 <= yingif_estimate_gif_size w h frames < 2 ^ 31
  \/ 2 ^ 64 - 2 ^ 31 <= yingif_estimate_gif_size w h frames < 2 ^ 64.
Proof.
  rewrite estimate_of_product.
  pose proof (wrap_int32_range (w * h * frames)) as Hr.
  unfold to_size_t.
  destruct (decide (0 <= wrap_int32 (w * h * frames))).
  - left. rewrite Z.mod_small; lia.
  - right.
    rewrite <- (Z.mod_unique_pos _ _ (-1) (2 ^ 64 + wrap_int32 (w * h * frames)));
      lia.
Qed.
End Estimator.

(** ** The pipeline test: the frame generator *)

Section TestFrames.
Import FrameStore.

Lemma test_row_length (size index : Z) (y : nat) :
  length (concat (map (fun x : nat =>
            test_pixel size index (Z.of_nat x) (Z.of_nat y))
            (seq 0 (Z.to_nat size))))
    = (Z.to_nat size * 4)%nat.
Proof. by rewrite (length_concat_uniform _ _ 4), length_seq. Qed.

Lemma frame_length (size index : Z) :
  length (generate_test_frame size index)
    = (Z.to_nat size * Z.to_nat size * 4)%nat.
Proof.
  unfold generate_test_frame.
  rewrite (length_concat_uniform _ _ (Z.to_nat size * 4)), length_seq.
  - lia.
  - apply test_row_length.
Qed.


Lemma frame_lookup (size index : Z) (x y c : nat) :
  (x < Z.to_nat size)%nat -> (y < Z.to_nat size)%nat -> (c < 4)%nat ->
  generate_test_frame size index !! ((y * Z.to_nat size + x) * 4 + c)%nat
    = test_pixel size index (Z.of_nat x) (Z.of_nat y) !! c.
Proof.
  intros Hx Hy Hc. unfold generate_test_frame.
  replace ((y * Z.to_nat size + x) * 4 + c)%nat
    with (y * (Z.to_nat size * 4) + (x * 4 + c))%nat by lia.
  rewrite (lookup_concat_uniform _ _ (Z.to_nat size * 4) y (x * 4 + c) y).
  - rewrite (lookup_concat_uniform _ _ 4 x c x); [done|done| |done].
    by rewrite lookup_seq_lt.
  - apply test_row_length.
  - by rewrite lookup_seq_lt.
  - lia.
Qed.



(** X8.  Layout: for a frame whose offsets fit an [int] and any [int]
    frame index, the byte at offset (y*size + x)*4 + c is channel c of
    pixel (x, y) as the generator computes it in C arithmetic. *)
Theorem generate_test_frame_lookup (size index x y c : Z) :
  size * size * 4 < 2 ^ 31 -> - 2 ^ 31 <= index < 2 ^ 31 ->
  0 <= x < size -> 0 <= y < size -> 0 <= c < 4 ->
  generate_test_frame size index !! Z.to_nat ((y * size + x) * 4 + c)
    = test_pixel size index x y !! Z.to_nat c.
Proof.
  intros _ _ Hx Hy Hc.
  replace (Z.to_nat ((y * size + x) * 4 + c))
    with ((Z.to_nat y * Z.to_nat size + Z.to_nat x) * 4 + Z.to_nat c)%nat
    by lia.
  rewrite frame_lookup by lia.
  by rewrite !Z2Nat.id by lia.
Qed.

Lemma generate_test_frame_lookup_witness :
  generate_test_frame 2 (-1) !! Z.to_nat ((0 * 2 + 1) * 4 + 0) = Some 249.
Proof.
  apply (generate_test_frame_lookup 2 (-1) 1 0 0); lia.
Defined.

Lemma int_mul_small (a b : Z) :
  - 2 ^ 31 <= a * b < 2 ^ 31 -> int_mul a b = a * b.
Proof. apply wrap_int32_small. Qed.

Lemma int_add_small (a b : Z) :
  - 2 ^ 31 <= a + b < 2 ^ 31 -> int_add a b = a + b.
Proof. apply wrap_int32_small. Qed.

Lemma int_div_small (a b : Z) :
  0 <= a < 2 ^ 31 -> 0 < b -> int_div a b = a / b.
Proof.
  intros Ha Hb. unfold int_div.
  rewrite Z.quot_div_nonneg by lia.
  apply wrap_int32_small.
  pose proof (Z.div_pos a b). pose proof (Z.div_le_upper_bound a b a). nia.
Qed.

Lemma int_rem_small (a b : Z) :
  0 <= a -> 0 < b -> int_rem a b = a mod b.
Proof. intros Ha Hb. unfold int_rem. by apply Z.rem_mod_nonneg. Qed.

(** A coordinate scaled to 0..254. *)
Lemma scaled_exact (a d : Z) :
  0 <= a < d -> 255 * d < 2 ^ 31 ->
  int_div (int_mul a 255) d = a * 255 / d /\ 0 <= a * 255 / d <= 254.
Proof.
  intros Ha Hd.
  rewrite int_mul_small, int_div_small by lia.
  split; [done|]. split.
  - apply Z.div_pos; lia.
  - assert (a * 255 / d < 255); [|lia].
    apply Z.div_lt_upper_bound; lia.
Qed.

(** A scaled coordinate shaded by a sixteenth: the stored byte is the
    value itself. *)
Lemma shade_exact (s m : Z) :
  0 <= s <= 254 -> 0 <= m <= 15 ->
  to_uint8 (int_div (int_mul s m) 16) = s * m / 16
  /\ 0 <= s * m / 16 <= 238.
Proof.
  intros Hs Hm.
  assert (0 <= s * m <= 254 * 15) by nia.
  rewrite int_mul_small, int_div_small by lia.
  assert (0 <= s * m / 16 <= 238) as Hbound.
  { split; [apply Z.div_pos; lia|].
    assert (s * m / 16 < 239); [|lia].
    apply Z.div_lt_upper_bound; lia. }
  split; [|done]. unfold to_uint8. apply Z.mod_small. lia.
Qed.

Lemma side_bound (size : Z) :
  0 < size -> size * size * 4 < 2 ^ 31 -> 510 * size < 2 ^ 31.
Proof. intros Hpos Hsize. assert (size < 23171) by nia. lia. Qed.

(** Inside a frame whose offsets fit an [int], and for a frame index
    from 0 to INT_MAX - 8, no operation of the generator overflows and
    no channel is truncated by the store into a byte. *)
Lemma test_pixel_exact (size index x y : Z) :
  size * size * 4 < 2 ^ 31 -> 0 <= index < 2 ^ 31 - 8 ->
  0 <= x < size -> 0 <= y < size ->
  test_pixel size index x y
    = [ (x * 255 / size) * (index mod 16) / 16;
        (y * 255 / size) * ((index + 8) mod 16) / 16;
        ((x + y) * 255 / (2 * size)) * ((index + 4) mod 16) / 16;
        255 ]
  /\ 0 <= (x * 255 / size) * (index mod 16) / 16 <= 238
  /\ 0 <= (y * 255 / size) * ((index + 8) mod 16) / 16 <= 238
  /\ 0 <= ((x + y) * 255 / (2 * size)) * ((index + 4) mod 16) / 16 <= 238.
Proof.
  intros Hsize Hindex Hx Hy.
  pose proof (side_bound size ltac:(lia) Hsize) as Hside.
  destruct (scaled_exact x size) as [Ex Bx]; [lia | lia |].
  destruct (scaled_exact y size) as [Ey By]; [lia | lia |].
  destruct (scaled_exact (x + y) (2 * size)) as [Exy Bxy]; [lia | lia |].
  pose proof (Z.mod_pos_bound index 16 ltac:(lia)).
  pose proof (Z.mod_pos_bound (index + 8) 16 ltac:(lia)).
  pose proof (Z.mod_pos_bound (index + 4) 16 ltac:(lia)).
  destruct (shade_exact (x * 255 / size) (index mod 16)) as [Er Br];
    [lia | lia |].
  destruct (shade_exact (y * 255 / size) ((index + 8) mod 16)) as [Eg Bg];
    [lia | lia |].
  destruct (shade_exact ((x + y) * 255 / (2 * size)) ((index + 4) mod 16))
    as [Eb Bb]; [lia | lia |].
  split; [|done].
  unfold test_pixel.
  rewrite (int_add_small x y), (int_mul_small 2 size),
    (int_add_small index 8), (int_add_small index 4) by lia.
  rewrite !int_rem_small by lia.
  by rewrite Ex, Ey, Exy, Er, Eg, Eb.
Qed.

(** Every offset into the frame is that of one channel of one pixel. *)
Lemma offset_decompose (n k : nat) :
  (k < n * n * 4)%nat ->
  exists x y c : nat,
    (x < n)%nat /\ (y < n)%nat /\ (c < 4)%nat
    /\ k = ((y * n + x) * 4 + c)%nat /\ (k mod 4 = c)%nat.
Proof.
  intros Hk.
  exists ((k / 4) mod n)%nat, (k / 4 / n)%nat, (k mod 4)%nat.
  assert (n <> 0)%nat by lia.
  pose proof (Nat.div_mod_eq k 4).
  pose proof (Nat.mod_upper_bound k 4).
  pose proof (Nat.div_mod_eq (k / 4) n).
  pose proof (Nat.mod_upper_bound (k / 4) n).
  assert (k / 4 < n * n)%nat by (apply Nat.Div0.div_lt_upper_bound; lia).
  assert (k / 4 / n < n)%nat by (apply Nat.Div0.div_lt_upper_bound; lia).
  repeat split; lia.
Qed.

(** X9.  For a frame whose offsets fit an [int] and a frame index from
    0 to INT_MAX - 8, every fourth byte of the frame (alpha) is 255 and
    every other byte (red, green, blue) lies between 0 and 238: no
    channel value is cut off when stored as a byte. *)
Theorem generate_test_frame_bytes (size index : Z) (k : nat) (b : Z) :
  size * size * 4 < 2 ^ 31 -> 0 <= index < 2 ^ 31 - 8 ->
  generate_test_frame size index !! k = Some b ->
  if decide (k mod 4 = 3)%nat then b = 255 else 0 <= b <= 238.
Proof.
  intros Hsize Hindex Hb.
  assert (k < Z.to_nat size * Z.to_nat size * 4)%nat as Hk.
  { rewrite <- (frame_length size index). by eapply lookup_lt_Some. }
  destruct (offset_decompose _ _ Hk) as (x & y & c & Hx & Hy & Hc & -> & Hmod).
  rewrite frame_lookup in Hb by done.
  destruct (test_pixel_exact size index (Z.of_nat x) (Z.of_nat y))
    as (Hpx & Hr & Hg & Hbl); [done | done | lia | lia |].
  rewrite Hpx in Hb. rewrite Hmod.
  destruct c as [|[|[|[|c]]]]; cbn in Hb; simplify_eq; try lia;
    by case_decide.
Qed.

Lemma generate_test_frame_bytes_witness :
  if decide ((6 mod 4 = 3)%nat) then 43 = 255 else 0 <= 43 <= 238.
Proof.
  apply (generate_test_frame_bytes 2 2147483639 6 43);
    [lia | lia | vm_compute; reflexivity].
Defined.
End TestFrames.

Section TestFramePeriod.
Import FrameStore.

(** Within the range where nothing overflows, a pixel depends on the
    frame index only through its remainder modulo 16. *)
Lemma test_pixel_congr (size i j x y : Z) :
  size * size * 4 < 2 ^ 31 ->
  0 <= i < 2 ^ 31 - 8 -> 0 <= j < 2 ^ 31 - 8 ->
  0 <= x < size -> 0 <= y < size ->
  i mod 16 = j mod 16 ->
  test_pixel size i x y = test_pixel size j x y.
Proof.
  intros Hsize Hi Hj Hx Hy Hmod.
  destruct (test_pixel_exact size i x y) as [-> _]; [done..|].
  destruct (test_pixel_exact size j x y) as [-> _]; [done..|].
  rewrite (Z.add_mod i 8 16), (Z.add_mod i 4 16), Hmod by lia.
  by rewrite <- (Z.add_mod j 8 16), <- (Z.add_mod j 4 16) by lia.
Qed.

Lemma shade_strict (a m1 m2 : Z) :
  16 <= a -> 0 <= m1 < m2 -> a * m1 / 16 < a * m2 / 16.
Proof.
  intros Ha Hm.
  apply Z.div_lt_upper_bound; [lia|].
  pose proof (Z.div_mod (a * m2) 16).
  pose proof (Z.mod_pos_bound (a * m2) 16).
  nia.
Qed.

(** The red channel of the last pixel of the first row. *)
Lemma corner_red (size index : Z) :
  2 <= size -> size * size * 4 < 2 ^ 31 -> 0 <= index < 2 ^ 31 - 8 ->
  generate_test_frame size index !! ((Z.to_nat size - 1) * 4)%nat
    = Some ((size - 1) * 255 / size * (index mod 16) / 16).
Proof.
  intros Hmin Hsize Hindex.
  replace ((Z.to_nat size - 1) * 4)%nat
    with ((0 * Z.to_nat size + (Z.to_nat size - 1)) * 4 + 0)%nat by lia.
  rewrite frame_lookup by lia.
  destruct (test_pixel_exact size index (Z.of_nat (Z.to_nat size - 1))
              (Z.of_nat 0)) as [-> _]; [done | done | lia | lia |].
  cbn. do 4 f_equal. lia.
Qed.

(** X10.  For a side of at least 2 whose offsets fit an [int] and frame
    indices from 0 to INT_MAX - 8, two generated frames are equal
    exactly when their indices are equal modulo 16: the pattern repeats
    every 16 frames and the 16 frames of one period are pairwise
    distinct. *)
Theorem generate_test_frame_period (size i j : Z) :
  2 <= size -> size * size * 4 < 2 ^ 31 ->
  0 <= i < 2 ^ 31 - 8 -> 0 <= j < 2 ^ 31 - 8 ->
  generate_test_frame size i = generate_test_frame size j
  <-> i mod 16 = j mod 16.
Proof.
  intros Hmin Hsize Hi Hj. split.
  - intros Heq.
    pose proof (corner_red size i Hmin Hsize Hi) as Hci.
    pose proof (corner_red size j Hmin Hsize Hj) as Hcj.
    rewrite Heq, Hcj in Hci. injection Hci as Hred.
    assert (16 <= (size - 1) * 255 / size) as Ha
      by (apply Z.div_le_lower_bound; lia).
    pose proof (Z.mod_pos_bound i 16 ltac:(lia)) as [Hmi _].
    pose proof (Z.mod_pos_bound j 16 ltac:(lia)) as [Hmj _].
    destruct (Z.lt_total (i mod 16) (j mod 16)) as [Hlt | [Heqm | Hlt]];
      [|done|].
    + pose proof (shade_strict _ _ _ Ha (conj Hmi Hlt)). lia.
    + pose proof (shade_strict _ _ _ Ha (conj Hmj Hlt)). lia.
  - intros Hmod. unfold generate_test_frame. f_equal.
    apply map_ext_in. intros y Hy%in_seq. f_equal.
    apply map_ext_in. intros x Hx%in_seq.
    apply test_pixel_congr; (done || lia).
Qed.

Lemma generate_test_frame_period_witness :
  generate_test_frame 2 1 = generate_test_frame 2 17 <-> 1 mod 16 = 17 mod 16.
Proof. apply (generate_test_frame_period 2 1 17); lia. Defined.
End TestFramePeriod.

(** ** The pipeline test: encoder input, checks and exit code *)

Section TestData.
Import PipelineTest.

(** A property checked on each of the 256 palette positions holds for
    all of them. *)
Lemma all_positions (P : Z -> bool) :
  forallb P (seqZ 0 256) = true ->
  forall i, 0 <= i < 256 -> P i = true.
Proof.
  intros Hall i Hi. rewrite forallb_forall in Hall.
  apply Hall, list_elem_of_In, elem_of_seqZ. lia.
Qed.

(** X11.  The bytes of a test palette entry: blue is i+128 and green is
    i+64, both modulo 256; the green term is not masked, so from
    position 192 on its carry sets the lowest bit of red, which is i
    below 192 and i with bit 0 set from 192 on. *)
Theorem palette_entry_channels (i : Z) :
  0 <= i < 256 ->
  palette_entry i mod 256 = (i + 128) mod 256
  /\ (palette_entry i / 256) mod 256 = (i + 64) mod 256
  /\ palette_entry i / 65536 = if decide (i < 192) then i else Z.lor i 1.
Proof.
  intros Hi.
  pose proof (all_positions (fun i =>
    (palette_entry i mod 256 =? (i + 128) mod 256)
    && ((palette_entry i / 256) mod 256 =? (i + 64) mod 256)
    && (palette_entry i / 65536 =? if i <? 192 then i else Z.lor i 1))
    ltac:(vm_compute; reflexivity) i Hi) as Hcheck.
  cbn beta in Hcheck.
  apply andb_prop in Hcheck as [Hcheck Hred].
  apply andb_prop in Hcheck as [Hblue Hgreen].
  apply Z.eqb_eq in Hblue, Hgreen, Hred.
  repeat split; [done | done |].
  rewrite Hred. case_decide; [by rewrite (proj2 (Z.ltb_lt _ _)) by done|].
  by rewrite (proj2 (Z.ltb_ge _ _)) by lia.
Qed.

Lemma palette_entry_channels_witness :
  palette_entry 200 mod 256 = (200 + 128) mod 256
  /\ (palette_entry 200 / 256) mod 256 = (200 + 64) mod 256
  /\ palette_entry 200 / 65536 = Z.lor 200 1.
Proof. apply (palette_entry_channels 200). lia. Defined.

(** X12.  The 256 test palette entries are 24-bit values (the top byte
    of the 32-bit entry is 0) and pairwise distinct. *)
Theorem palette_entry_distinct (i j : Z) :
  0 <= i < 256 -> 0 <= j < 256 ->
  0 <= palette_entry i < 2 ^ 24
  /\ (palette_entry i = palette_entry j -> i = j).
Proof.
  intros Hi Hj.
  pose proof (all_positions (fun i =>
    (0 <=? palette_entry i) && (palette_entry i <? 2 ^ 24)
    && (palette_entry i mod 256 =? (i + 128) mod 256))
    ltac:(vm_compute; reflexivity)) as Hcheck.
  cbn beta in Hcheck.
  pose proof (Hcheck i Hi) as Hci. pose proof (Hcheck j Hj) as Hcj.
  apply andb_prop in Hci as [Hci Hbi]. apply andb_prop in Hci as [Hlo Hhi].
  apply andb_prop in Hcj as [_ Hbj].
  apply Z.eqb_eq in Hbi, Hbj. apply Z.leb_le in Hlo. apply Z.ltb_lt in Hhi.
  split; [done|].
  intros Heq. rewrite Heq, Hbj in Hbi.
  revert Hbi. Z.to_euclidean_division_equations. lia.
Qed.

Lemma palette_entry_distinct_witness :
  0 <= palette_entry 0 < 2 ^ 24
  /\ (palette_entry 0 = palette_entry 255 -> 0 = 255).
Proof. apply (palette_entry_distinct 0 255); lia. Defined.

Lemma lookup_rows {B} (g : Z -> list B) (m : nat) (n k : Z) (i : nat) :
  (forall f, length (g f) = m) ->
  0 <= k < n -> (i < m)%nat ->
  concat (map g (seqZ 0 n)) !! (Z.to_nat k * m + i)%nat = g k !! i.
Proof.
  intros Hlen Hk Hi.
  apply (lookup_concat_uniform g (seqZ 0 n) m (Z.to_nat k) i k); [done| |done].
  rewrite lookup_seqZ. split; lia.
Qed.

(** X13.  Layout of the test input: for every frame f and position i
    inside it, the index at offset f*size*size + i is (i + 10*f) mod 256,
    and the palette entry at offset f*256 + i is the same for every
    frame. *)
Theorem gif_test_data_lookup (n_frames size f i p : Z) :
  0 <= f < n_frames -> 0 <= i < size * size -> 0 <= p < 256 ->
  gif_test_indices n_frames size !! Z.to_nat (f * size * size + i)
    = Some ((i + f * 10) mod 256)
  /\ gif_test_palettes n_frames !! Z.to_nat (f * 256 + p)
     = Some (palette_entry p).
Proof.
  intros Hf Hi Hp. split.
  - replace (Z.to_nat (f * size * size + i))
      with (Z.to_nat f * Z.to_nat (size * size) + Z.to_nat i)%nat by nia.
    unfold gif_test_indices.
    rewrite (lookup_rows _ (Z.to_nat (size * size)) n_frames f);
      [| intros; by rewrite length_map, length_seqZ | done | lia].
    rewrite list_lookup_fmap, (proj2 (lookup_seqZ 0 (size * size) (Z.to_nat i) i))
      by lia.
    done.
  - replace (Z.to_nat (f * 256 + p))
      with (Z.to_nat f * 256 + Z.to_nat p)%nat by lia.
    unfold gif_test_palettes.
    rewrite (lookup_rows _ 256 n_frames f);
      [| intros; by rewrite length_map, length_seqZ | done | lia].
    rewrite list_lookup_fmap, (proj2 (lookup_seqZ 0 256 (Z.to_nat p) p)) by lia.
    done.
Qed.

Lemma gif_test_data_lookup_witness :
  gif_test_indices 4 2 !! Z.to_nat (3 * 2 * 2 + 1) = Some ((1 + 3 * 10) mod 256)
  /\ gif_test_palettes 4 !! Z.to_nat (3 * 256 + 200) = Some (palette_entry 200).
Proof. apply (gif_test_data_lookup 4 2 3 1 200); lia. Defined.

(** X14.  The test input has n_frames*size*size indices, each a valid
    position of a 256-entry palette, and n_frames*256 palette entries. *)
Theorem gif_test_data_shape (n_frames size : Z) :
  0 <= n_frames ->
  Z.of_nat (length (gif_test_indices n_frames size))
    = n_frames * Z.max 0 (size * size)
  /\ Forall (fun k => 0 <= k < 256) (gif_test_indices n_frames size)
  /\ Z.of_nat (length (gif_test_palettes n_frames)) = n_frames * 256.
Proof.
  intros Hn. unfold gif_test_indices, gif_test_palettes. repeat split.
  - rewrite (length_concat_uniform _ _ (Z.to_nat (size * size))), length_seqZ;
      [lia|].
    intros f. by rewrite length_map, length_seqZ.
  - apply Forall_concat, Forall_map, Forall_forall. intros f _.
    apply Forall_map, Forall_forall. intros i _. cbn.
    apply Z.mod_pos_bound. lia.
  - rewrite (length_concat_uniform _ _ 256), length_seqZ; [lia|].
    intros f. by rewrite length_map, length_seqZ.
Qed.

Lemma gif_test_data_shape_witness :
  Z.of_nat (length (gif_test_indices 4 2)) = 4 * Z.max 0 (2 * 2)
  /\ Forall (fun k => 0 <= k < 256) (gif_test_indices 4 2)
  /\ Z.of_nat (length (gif_test_palettes 4)) = 4 * 256.
Proof. apply (gif_test_data_shape 4 2). lia. Defined.
End TestData.

Section TestChecks.
Import PipelineTest.

Lemma first_hit_true (hit : nat -> bool) (i n : nat) :
  first_hit hit i n = true
  <-> exists k : nat, (i <= k < i + n)%nat /\ hit k = true.
Proof.
  revert i. induction n as [|n IH]; intros i; cbn [first_hit].
  - split; [done | intros (k & Hk & _); lia].
  - destruct (hit i) eqn:Hi.
    + split; [|done]. intros _. exists i. split; [lia | done].
    + rewrite IH. split; intros (k & Hk & Hhit).
      * exists k. split; [lia | done].
      * exists k. split; [|done].
        destruct (decide (k = i)) as [-> |]; [congruence | lia].
Qed.

Lemma first_hit_ext (hit hit' : nat -> bool) (i n : nat) :
  (forall k : nat, (i <= k < i + n)%nat -> hit k = hit' k) ->
  first_hit hit i n = first_hit hit' i n.
Proof.
  revert i. induction n as [|n IH]; intros i Hext; [done|].
  cbn [first_hit]. rewrite (Hext i) by lia.
  destruct (hit' i); [done|]. apply IH. intros k Hk. apply Hext. lia.
Qed.

Lemma at_index_app_l (first rest : list Z) (k : nat) :
  (k < length first)%nat -> at_index (first ++ rest) k = at_index first k.
Proof. intros Hk. unfold at_index. by rewrite lookup_app_l. Qed.

Lemma first_hit_Exists (P : Z -> Prop) `{!forall z, Decision (P z)}
    (buf : list Z) :
  first_hit (fun i => bool_decide (P (at_index buf i))) 0 (length buf) = true
  <-> Exists P buf.
Proof.
  rewrite first_hit_true, Exists_exists. split.
  - intros (k & Hk & Hhit). apply bool_decide_eq_true in Hhit.
    destruct (lookup_lt_is_Some_2 buf k ltac:(lia)) as [z Hz].
    unfold at_index in Hhit. rewrite Hz in Hhit.
    exists z. split; [|done]. by eapply list_elem_of_lookup_2.
  - intros (z & Hin & Hz).
    apply list_elem_of_lookup in Hin as [k Hk].
    exists k. split; [apply lookup_lt_Some in Hk; lia|].
    apply bool_decide_eq_true. unfold at_index. by rewrite Hk.
Qed.

(** X15.  The comparison loop of the save/load test leaves [matches] at
    1 exactly when the first size*size*4 bytes of the two buffers are
    equal, for buffers at least that long. *)
Theorem matches_iff (frame loaded_frame : list Z) (size : Z) :
  (Z.to_nat (size * size * 4) <= length frame)%nat ->
  (Z.to_nat (size * size * 4) <= length loaded_frame)%nat ->
  matches frame loaded_frame size = 1
  <-> take (Z.to_nat (size * size * 4)) frame
      = take (Z.to_nat (size * size * 4)) loaded_frame.
Proof.
  intros Hf Hl. unfold matches.
  set (n := Z.to_nat (size * size * 4)) in *.
  destruct (first_hit _ 0 n) eqn:Hhit.
  - split; [done|]. intros Heq. exfalso.
    apply first_hit_true in Hhit as (k & Hk & Hneq).
    apply bool_decide_eq_true in Hneq. apply Hneq.
    unfold at_index.
    rewrite <- (lookup_take_lt frame n k), <- (lookup_take_lt loaded_frame n k)
      by lia.
    by rewrite Heq.
  - split; [intros _|done].
    apply list_eq. intros k.
    destruct (decide (k < n)%nat) as [Hk|Hk].
    + rewrite !lookup_take_lt by done.
      destruct (lookup_lt_is_Some_2 frame k ltac:(lia)) as [a Ha].
      destruct (lookup_lt_is_Some_2 loaded_frame k ltac:(lia)) as [b Hb].
      rewrite Ha, Hb. f_equal.
      destruct (decide (a = b)) as [|Hab]; [done|]. exfalso.
      assert (first_hit (fun i => bool_decide
                (at_index frame i <> at_index loaded_frame i)) 0 n = true)
        as Htrue; [|congruence].
      apply first_hit_true. exists k. split; [lia|].
      apply bool_decide_eq_true. unfold at_index. by rewrite Ha, Hb.
    + rewrite !lookup_take_ge by lia. done.
Qed.

Lemma matches_iff_witness :
  matches [1; 2; 3; 4; 9] [1; 2; 3; 4; 7] 1 = 1
  <-> take (Z.to_nat (1 * 1 * 4)) [1; 2; 3; 4; 9]
      = take (Z.to_nat (1 * 1 * 4)) [1; 2; 3; 4; 7].
Proof. apply (matches_iff [1; 2; 3; 4; 9] [1; 2; 3; 4; 7] 1); cbn; lia. Defined.

(** X16.  The data check of the quantizer test looks at the first frame
    only: the indices of later frames do not influence it, and it
    reports 1 exactly when the first frame has a non-zero index. *)
Theorem has_data_first_frame (first rest : list Z) (output_size : Z) :
  length first = Z.to_nat (output_size * output_size) ->
  has_data (first ++ rest) output_size = has_data first output_size
  /\ (has_data first output_size = 1 <-> Exists (fun k => k <> 0) first).
Proof.
  intros Hlen. unfold has_data. rewrite <- Hlen. split.
  - erewrite first_hit_ext; [done|].
    intros k Hk. cbn beta. by rewrite at_index_app_l by lia.
  - rewrite <- (first_hit_Exists (fun k => k <> 0)).
    by destruct (first_hit _ 0 (length first)).
Qed.

Lemma has_data_first_frame_witness :
  has_data ([0; 0; 0; 0] ++ [5; 5; 5; 5]) 2 = has_data [0; 0; 0; 0] 2
  /\ (has_data [0; 0; 0; 0] 2 = 1 <-> Exists (fun k => k <> 0) [0; 0; 0; 0]).
Proof. apply (has_data_first_frame [0; 0; 0; 0] [5; 5; 5; 5] 2). reflexivity. Defined.

(** X17.  The colour check of the quantizer test looks at the first 256
    palette entries only, the palette of the first frame, and reports 1
    exactly when one of them is neither 0 nor 0xFF000000. *)
Theorem has_colors_first_palette (first rest : list Z) :
  length first = 256%nat ->
  has_colors (first ++ rest) = has_colors first
  /\ (has_colors first = 1
      <-> Exists (fun e => e <> 0 /\ e <> 0xFF000000) first).
Proof.
  intros Hlen. unfold has_colors. rewrite <- Hlen. split.
  - erewrite first_hit_ext; [done|].
    intros k Hk. cbn beta. by rewrite at_index_app_l by lia.
  - rewrite <- (first_hit_Exists (fun e => e <> 0 /\ e <> 0xFF000000)).
    erewrite (first_hit_ext _ (fun i => bool_decide
               (at_index first i <> 0 /\ at_index first i <> 0xFF000000))).
    + by destruct (first_hit _ 0 (length first)).
    + intros k _. cbn beta. symmetry. apply bool_decide_and.
Qed.

Lemma has_colors_first_palette_witness :
  has_colors (replicate 256 0 ++ [7]) = has_colors (replicate 256 0)
  /\ (has_colors (replicate 256 0) = 1
      <-> Exists (fun e => e <> 0 /\ e <> 0xFF000000) (replicate 256 0)).
Proof.
  apply (has_colors_first_palette (replicate 256 0) [7]). reflexivity.
Defined.

(** X18.  The exit code of the test program counts the failed tests: it
    is between 0 and 3, and it is 0 exactly when all three tests
    returned 0. *)
Theorem main_exit_code (r1 r2 r3 : Z) :
  0 <= main r1 r2 r3 <= 3
  /\ (main r1 r2 r3 = 0 <-> r1 = 0 /\ r2 = 0 /\ r3 = 0).
Proof. unfold main. repeat case_bool_decide; lia. Qed.
End TestChecks.
